(** * go-state-types: the proof-type registry of [abi/sector.go]

    A shallow embedding of the sector-size formatter and of the two
    proof-type tables of package [abi], with the five accessors built on
    them, followed by the properties the registry is specified to have. *)

From Stdlib Require Import ZArith String DecimalString DecimalPos DecimalN DecimalZ Lia.
From stdpp Require Import gmap strings list fin_maps.
From Equations Require Import Equations.

Local Open Scope string_scope.
Local Open Scope Z_scope.

(** ** Go's library functions used by the file *)

(** [strconv.FormatUint(u, 10)] and the verb [%d] on an unsigned value. *)
Definition FormatUint (u : Z) : string :=
  NilZero.string_of_uint (N.to_uint (Z.to_N u)).

(** The verbs [%d] and [%v] on a signed integer type without a [String]
    method. *)
Definition FormatInt (i : Z) : string :=
  NilZero.string_of_int (Z.to_int i).

(** A Go [error] is represented by its message. *)
Abbreviation error := string (only parsing).

(** [xerrors.Errorf(prefix + "%v", p)] for an integer [p]. *)
Definition Errorf (prefix : string) (p : Z) : error :=
  prefix +:+ FormatInt p.

(** Indexing a slice: [None] stands for the run-time panic Go raises when
    the index is out of range. *)
Definition index {A} (l : list A) (i : Z) : option A :=
  if decide (0 ≤ i) then l !! Z.to_nat i else None.

(** The values of a [uint64]. *)
Definition is_uint64 (z : Z) : Prop := 0 ≤ z < 2 ^ 64.

(** ** Package abi *)

(** [type SectorSize uint64], [type RegisteredSealProof int64] and
    [type RegisteredPoStProof int64] are carried by [Z]. *)
Abbreviation SectorSize := Z (only parsing).
Abbreviation RegisteredSealProof := Z (only parsing).
Abbreviation RegisteredPoStProof := Z (only parsing).

(** [func (s SectorSize) String() string] *)
Definition SectorSize_String (s : SectorSize) : string := FormatUint s.

Definition biUnits : list string :=
  ["B"; "KiB"; "MiB"; "GiB"; "TiB"; "PiB"; "EiB"].

(** [len(biUnits)] as a Go [int]. *)
Definition len_biUnits : Z := Z.of_nat (length biUnits).

(** The loop of [ShortString]:
    [for s >= 1024 && unit < len(biUnits)-1 { s /= 1024; unit++ }],
    returning the final values of [s] and [unit].  Each iteration shrinks
    the distance from [unit] to [len(biUnits)-1]. *)
Equations? ShortString_loop (s : SectorSize) (unit : Z) : SectorSize * Z
  by wf (Z.to_nat (len_biUnits - 1 - unit)) lt :=
  ShortString_loop s unit with decide (1024 ≤ s ∧ unit < len_biUnits - 1) := {
    | left _ := ShortString_loop (s / 1024) (unit + 1);
    | right _ := (s, unit) }.
Proof. lia. Qed.

(** [func (s SectorSize) ShortString() string].  The result is [None] when
    [biUnits[unit]] would panic. *)
Definition ShortString (s : SectorSize) : option string :=
  let '(s', unit) := ShortString_loop s 0 in
  u ← index biUnits unit;
  Some (FormatUint s' +:+ u).

(** The constants of [RegisteredSealProof]. *)
Definition RegisteredSealProof_StackedDrg2KiBV2 : RegisteredSealProof := 0.
Definition RegisteredSealProof_StackedDrg8MiBV2 : RegisteredSealProof := 1.
Definition RegisteredSealProof_StackedDrg512MiBV2 : RegisteredSealProof := 2.
Definition RegisteredSealProof_StackedDrg32GiBV2 : RegisteredSealProof := 3.
Definition RegisteredSealProof_StackedDrg64GiBV2 : RegisteredSealProof := 4.

(** The constants of [RegisteredPoStProof]. *)
Definition RegisteredPoStProof_StackedDrgWinning2KiBV2 : RegisteredPoStProof := 0.
Definition RegisteredPoStProof_StackedDrgWinning8MiBV2 : RegisteredPoStProof := 1.
Definition RegisteredPoStProof_StackedDrgWinning512MiBV2 : RegisteredPoStProof := 2.
Definition RegisteredPoStProof_StackedDrgWinning32GiBV2 : RegisteredPoStProof := 3.
Definition RegisteredPoStProof_StackedDrgWinning64GiBV2 : RegisteredPoStProof := 4.
Definition RegisteredPoStProof_StackedDrgWindow2KiBV2 : RegisteredPoStProof := 5.
Definition RegisteredPoStProof_StackedDrgWindow8MiBV2 : RegisteredPoStProof := 6.
Definition RegisteredPoStProof_StackedDrgWindow512MiBV2 : RegisteredPoStProof := 7.
Definition RegisteredPoStProof_StackedDrgWindow32GiBV2 : RegisteredPoStProof := 8.
Definition RegisteredPoStProof_StackedDrgWindow64GiBV2 : RegisteredPoStProof := 9.

(** The two constant blocks, in declaration order. *)
Definition RegisteredSealProof_consts : list RegisteredSealProof :=
  [ RegisteredSealProof_StackedDrg2KiBV2;
    RegisteredSealProof_StackedDrg8MiBV2;
    RegisteredSealProof_StackedDrg512MiBV2;
    RegisteredSealProof_StackedDrg32GiBV2;
    RegisteredSealProof_StackedDrg64GiBV2 ].

Definition RegisteredPoStProof_consts : list RegisteredPoStProof :=
  [ RegisteredPoStProof_StackedDrgWinning2KiBV2;
    RegisteredPoStProof_StackedDrgWinning8MiBV2;
    RegisteredPoStProof_StackedDrgWinning512MiBV2;
    RegisteredPoStProof_StackedDrgWinning32GiBV2;
    RegisteredPoStProof_StackedDrgWinning64GiBV2;
    RegisteredPoStProof_StackedDrgWindow2KiBV2;
    RegisteredPoStProof_StackedDrgWindow8MiBV2;
    RegisteredPoStProof_StackedDrgWindow512MiBV2;
    RegisteredPoStProof_StackedDrgWindow32GiBV2;
    RegisteredPoStProof_StackedDrgWindow64GiBV2 ].

(** Metadata about a seal proof type.  The field [SectorSize] is written
    [SectorSize_], the plain name being the type's. *)
Record SealProofInfo := {
  SectorSize_ : SectorSize;
  WinningPoStProof : RegisteredPoStProof;
  WindowPoStProof : RegisteredPoStProof;
}.

(** The entries of the map literal [SealProofInfos], as written.  The
    values are pointers to records that nothing mutates, so the records
    stand for them. *)
Definition SealProofInfos_literal : list (RegisteredSealProof * SealProofInfo) :=
  [ (RegisteredSealProof_StackedDrg2KiBV2,
      {| SectorSize_ := Z.shiftl 2 10;
         WinningPoStProof := RegisteredPoStProof_StackedDrgWinning2KiBV2;
         WindowPoStProof := RegisteredPoStProof_StackedDrgWindow2KiBV2 |});
    (RegisteredSealProof_StackedDrg8MiBV2,
      {| SectorSize_ := Z.shiftl 8 20;
         WinningPoStProof := RegisteredPoStProof_StackedDrgWinning8MiBV2;
         WindowPoStProof := RegisteredPoStProof_StackedDrgWindow8MiBV2 |});
    (RegisteredSealProof_StackedDrg512MiBV2,
      {| SectorSize_ := Z.shiftl 512 20;
         WinningPoStProof := RegisteredPoStProof_StackedDrgWinning512MiBV2;
         WindowPoStProof := RegisteredPoStProof_StackedDrgWindow512MiBV2 |});
    (RegisteredSealProof_StackedDrg32GiBV2,
      {| SectorSize_ := Z.shiftl 32 30;
         WinningPoStProof := RegisteredPoStProof_StackedDrgWinning32GiBV2;
         WindowPoStProof := RegisteredPoStProof_StackedDrgWindow32GiBV2 |});
    (RegisteredSealProof_StackedDrg64GiBV2,
      {| SectorSize_ := Z.shiftl 64 30;
         WinningPoStProof := RegisteredPoStProof_StackedDrgWinning64GiBV2;
         WindowPoStProof := RegisteredPoStProof_StackedDrgWindow64GiBV2 |}) ].

(** [var SealProofInfos = map[RegisteredSealProof]*SealProofInfo{...}] *)
Definition SealProofInfos : gmap Z SealProofInfo :=
  list_to_map SealProofInfos_literal.

(** The result of a Go function returning [(T, error)]: the value and the
    error, [None] for [nil]. *)
Abbreviation result T := (T * option string)%type (only parsing).

(** [func (p RegisteredSealProof) SectorSize() (SectorSize, error)] *)
Definition RegisteredSealProof_SectorSize (p : RegisteredSealProof)
  : result SectorSize :=
  match SealProofInfos !! p with
  | None => (0, Some (Errorf "unsupported proof type: " p))
  | Some info => (SectorSize_ info, None)
  end.

(** [func (p RegisteredSealProof) RegisteredWinningPoStProof()
      (RegisteredPoStProof, error)] *)
Definition RegisteredWinningPoStProof (p : RegisteredSealProof)
  : result RegisteredPoStProof :=
  match SealProofInfos !! p with
  | None => (0, Some (Errorf "unsupported proof type: " p))
  | Some info => (WinningPoStProof info, None)
  end.

(** [func (p RegisteredSealProof) RegisteredWindowPoStProof()
      (RegisteredPoStProof, error)] *)
Definition RegisteredWindowPoStProof (p : RegisteredSealProof)
  : result RegisteredPoStProof :=
  match SealProofInfos !! p with
  | None => (0, Some (Errorf "unsupported proof type: " p))
  | Some info => (WindowPoStProof info, None)
  end.

(** The entries of the map literal [PoStSealProofTypes], as written. *)
Definition PoStSealProofTypes_literal
  : list (RegisteredPoStProof * RegisteredSealProof) :=
  [ (RegisteredPoStProof_StackedDrgWinning2KiBV2, RegisteredSealProof_StackedDrg2KiBV2);
    (RegisteredPoStProof_StackedDrgWindow2KiBV2, RegisteredSealProof_StackedDrg2KiBV2);
    (RegisteredPoStProof_StackedDrgWinning8MiBV2, RegisteredSealProof_StackedDrg8MiBV2);
    (RegisteredPoStProof_StackedDrgWindow8MiBV2, RegisteredSealProof_StackedDrg8MiBV2);
    (RegisteredPoStProof_StackedDrgWinning512MiBV2, RegisteredSealProof_StackedDrg512MiBV2);
    (RegisteredPoStProof_StackedDrgWindow512MiBV2, RegisteredSealProof_StackedDrg512MiBV2);
    (RegisteredPoStProof_StackedDrgWinning32GiBV2, RegisteredSealProof_StackedDrg32GiBV2);
    (RegisteredPoStProof_StackedDrgWindow32GiBV2, RegisteredSealProof_StackedDrg32GiBV2);
    (RegisteredPoStProof_StackedDrgWinning64GiBV2, RegisteredSealProof_StackedDrg64GiBV2);
    (RegisteredPoStProof_StackedDrgWindow64GiBV2, RegisteredSealProof_StackedDrg64GiBV2) ].

(** [var PoStSealProofTypes = map[RegisteredPoStProof]RegisteredSealProof{...}] *)
Definition PoStSealProofTypes : gmap Z Z :=
  list_to_map PoStSealProofTypes_literal.

(** [func (p RegisteredPoStProof) RegisteredSealProof()
      (RegisteredSealProof, error)] *)
Definition RegisteredPoStProof_RegisteredSealProof (p : RegisteredPoStProof)
  : result RegisteredSealProof :=
  match PoStSealProofTypes !! p with
  | None => (0, Some (Errorf "unsupported PoSt proof type: " p))
  | Some sp => (sp, None)
  end.

(** [func (p RegisteredPoStProof) SectorSize() (SectorSize, error)] *)
Definition RegisteredPoStProof_SectorSize (p : RegisteredPoStProof)
  : result SectorSize :=
  let '(sp, err) := RegisteredPoStProof_RegisteredSealProof p in
  match err with
  | Some e => (0, Some e)
  | None => RegisteredSealProof_SectorSize sp
  end.

(** The reverse table as the specification describes it: obtained from the
    forward table by inverting both the winning and the window mapping into
    one combined map. *)
Definition inverted_SealProofInfos (infos : gmap Z SealProofInfo) : gmap Z Z :=
  map_fold
    (λ s info acc, <[WinningPoStProof info := s]> (<[WindowPoStProof info := s]> acc))
    ∅ infos.

(** The pair of PoSt identifiers an entry carries, as a set. *)
Definition PoStProofs_of (info : SealProofInfo) : gset Z :=
  {[ WinningPoStProof info; WindowPoStProof info ]}.

(** One division step of the body of the loop of [ShortString],
    [s /= 1024]. *)
Definition div1024 (s : SectorSize) : SectorSize := s / 1024.

(** [type SectorNumber uint64] is carried by [Z]. *)
Abbreviation SectorNumber := Z (only parsing).

(** [func (s SectorNumber) String() string] *)
Definition SectorNumber_String (s : SectorNumber) : string := FormatUint s.

(** [const MaxSectorNumber = math.MaxInt64] *)
Definition MaxSectorNumber : Z := 2 ^ 63 - 1.

(** ** Package network *)

Module network.






End network.

(** ** The two tables as relations *)

Lemma SealProofInfos_keys_NoDup : NoDup SealProofInfos_literal.*1.
Proof. apply (bool_decide_unpack _). vm_compute. exact I. Qed.

Lemma PoStSealProofTypes_keys_NoDup : NoDup PoStSealProofTypes_literal.*1.
Proof. apply (bool_decide_unpack _). vm_compute. exact I. Qed.

Lemma SealProofInfos_lookup_Some (s : Z) (info : SealProofInfo) :
  SealProofInfos !! s = Some info ↔ (s, info) ∈ SealProofInfos_literal.
Proof.
  unfold SealProofInfos. symmetry.
  apply elem_of_list_to_map, SealProofInfos_keys_NoDup.
Qed.

Lemma PoStSealProofTypes_lookup_Some (p s : Z) :
  PoStSealProofTypes !! p = Some s ↔ (p, s) ∈ PoStSealProofTypes_literal.
Proof.
  unfold PoStSealProofTypes. symmetry.
  apply elem_of_list_to_map, PoStSealProofTypes_keys_NoDup.
Qed.

(** Splits a hypothesis [H : tbl !! k = Some v] into one goal per entry of
    the literal, with [k] and [v] replaced by the entry. *)
Ltac entries_of H :=
  first [ apply SealProofInfos_lookup_Some in H
        | apply PoStSealProofTypes_lookup_Some in H ];
  unfold SealProofInfos_literal, PoStSealProofTypes_literal in H;
  repeat (apply elem_of_cons in H as [H | H]; [ injection H as -> -> | ]);
  [ .. | apply elem_of_nil in H; destruct H ].

Lemma SealProofInfos_lookup_cases (s : Z) (info : SealProofInfo) :
  SealProofInfos !! s = Some info →
  0 ≤ s ≤ 4 ∧ WinningPoStProof info = s ∧ WindowPoStProof info = s + 5.
Proof. intros H. entries_of H; vm_compute; intuition congruence. Qed.

(** Every seal proof the reverse table names has an entry in the forward
    table. *)
Lemma PoStSealProofTypes_targets_registered (p s : Z) :
  PoStSealProofTypes !! p = Some s → is_Some (SealProofInfos !! s).
Proof. intros H. entries_of H; vm_compute; eauto. Qed.

(** The reverse table sends both PoSt identifiers of an entry back to its
    key. *)
Lemma PoStSealProofTypes_inverts (s : Z) (info : SealProofInfo) :
  SealProofInfos !! s = Some info →
  PoStSealProofTypes !! WinningPoStProof info = Some s ∧
  PoStSealProofTypes !! WindowPoStProof info = Some s.
Proof. intros H. entries_of H; vm_compute; auto. Qed.

(** Unfolding the accessors at a key that has an entry. *)
Lemma accessors_registered (s : Z) (info : SealProofInfo) :
  SealProofInfos !! s = Some info →
  RegisteredSealProof_SectorSize s = (SectorSize_ info, None) ∧
  RegisteredWinningPoStProof s = (WinningPoStProof info, None) ∧
  RegisteredWindowPoStProof s = (WindowPoStProof info, None).
Proof.
  intros H.
  unfold RegisteredSealProof_SectorSize, RegisteredWinningPoStProof,
    RegisteredWindowPoStProof.
  rewrite H. auto.
Qed.

Lemma RegisteredSealProof_registered (p s : Z) :
  PoStSealProofTypes !! p = Some s →
  RegisteredPoStProof_RegisteredSealProof p = (s, None).
Proof.
  intros H. unfold RegisteredPoStProof_RegisteredSealProof. by rewrite H.
Qed.

(** ** Properties of the registry *)

(** C1 (bijectivity).  For every seal proof [s] with an entry in
    [SealProofInfos], [RegisteredWinningPoStProof] and
    [RegisteredWindowPoStProof] succeed on [s], and the reverse lookup
    [RegisteredSealProof] applied to either PoSt proof they return
    succeeds and yields [s]. *)
Theorem seal_of_post_of_seal (s : Z) :
  is_Some (SealProofInfos !! s) →
  ∃ winning window : Z,
    RegisteredWinningPoStProof s = (winning, None) ∧
    RegisteredPoStProof_RegisteredSealProof winning = (s, None) ∧
    RegisteredWindowPoStProof s = (window, None) ∧
    RegisteredPoStProof_RegisteredSealProof window = (s, None).
Proof.
  intros [info Hinfo].
  destruct (accessors_registered s info Hinfo) as (_ & Hwin & Hwnd).
  destruct (PoStSealProofTypes_inverts s info Hinfo) as [Hrw Hrd].
  exists (WinningPoStProof info), (WindowPoStProof info).
  auto using RegisteredSealProof_registered.
Qed.

(** The 32 GiB seal proof has an entry, and goes there and back. *)
Lemma seal_of_post_of_seal_32GiB :
  is_Some (SealProofInfos !! RegisteredSealProof_StackedDrg32GiBV2) ∧
  ∃ winning window : Z,
    RegisteredWinningPoStProof RegisteredSealProof_StackedDrg32GiBV2
      = (winning, None) ∧
    RegisteredPoStProof_RegisteredSealProof winning
      = (RegisteredSealProof_StackedDrg32GiBV2, None) ∧
    RegisteredWindowPoStProof RegisteredSealProof_StackedDrg32GiBV2
      = (window, None) ∧
    RegisteredPoStProof_RegisteredSealProof window
      = (RegisteredSealProof_StackedDrg32GiBV2, None).
Proof.
  split.
  - vm_compute. eauto.
  - apply (seal_of_post_of_seal RegisteredSealProof_StackedDrg32GiBV2).
    vm_compute. eauto.
Defined.

(** C2 (size consistency).  For every seal proof [s] with an entry in
    [SealProofInfos], [SectorSize] of its winning PoSt proof and
    [SectorSize] of its window PoSt proof both succeed with the sector
    size that [s.SectorSize()] returns. *)
Theorem post_sector_size_agrees (s : Z) :
  is_Some (SealProofInfos !! s) →
  ∃ (winning window : Z) (size : Z),
    RegisteredWinningPoStProof s = (winning, None) ∧
    RegisteredWindowPoStProof s = (window, None) ∧
    RegisteredSealProof_SectorSize s = (size, None) ∧
    RegisteredPoStProof_SectorSize winning = (size, None) ∧
    RegisteredPoStProof_SectorSize window = (size, None).
Proof.
  intros [info Hinfo].
  destruct (accessors_registered s info Hinfo) as (Hsz & Hwin & Hwnd).
  destruct (PoStSealProofTypes_inverts s info Hinfo) as [Hrw Hrd].
  exists (WinningPoStProof info), (WindowPoStProof info), (SectorSize_ info).
  unfold RegisteredPoStProof_SectorSize.
  rewrite (RegisteredSealProof_registered _ _ Hrw),
    (RegisteredSealProof_registered _ _ Hrd).
  auto.
Qed.

(** The 512 MiB seal proof has an entry, and its three sizes agree. *)
Lemma post_sector_size_agrees_512MiB :
  is_Some (SealProofInfos !! RegisteredSealProof_StackedDrg512MiBV2) ∧
  ∃ (winning window : Z) (size : Z),
    RegisteredWinningPoStProof RegisteredSealProof_StackedDrg512MiBV2
      = (winning, None) ∧
    RegisteredWindowPoStProof RegisteredSealProof_StackedDrg512MiBV2
      = (window, None) ∧
    RegisteredSealProof_SectorSize RegisteredSealProof_StackedDrg512MiBV2
      = (size, None) ∧
    RegisteredPoStProof_SectorSize winning = (size, None) ∧
    RegisteredPoStProof_SectorSize window = (size, None).
Proof.
  split.
  - vm_compute. eauto.
  - apply (post_sector_size_agrees RegisteredSealProof_StackedDrg512MiBV2).
    vm_compute. eauto.
Defined.

(** The outcome of the three seal-proof accessors on any key. *)
Lemma seal_accessors_outcome (s : Z) :
  match SealProofInfos !! s with
  | Some info =>
      RegisteredSealProof_SectorSize s = (SectorSize_ info, None) ∧
      RegisteredWinningPoStProof s = (WinningPoStProof info, None) ∧
      RegisteredWindowPoStProof s = (WindowPoStProof info, None)
  | None =>
      RegisteredSealProof_SectorSize s
        = (0, Some ("unsupported proof type: " +:+ FormatInt s)) ∧
      RegisteredWinningPoStProof s
        = (0, Some ("unsupported proof type: " +:+ FormatInt s)) ∧
      RegisteredWindowPoStProof s
        = (0, Some ("unsupported proof type: " +:+ FormatInt s))
  end.
Proof.
  unfold RegisteredSealProof_SectorSize, RegisteredWinningPoStProof,
    RegisteredWindowPoStProof, Errorf.
  destruct (SealProofInfos !! s); auto.
Qed.

(** The outcome of the two PoSt-proof accessors on any key. *)
Lemma post_accessors_outcome (p : Z) :
  match PoStSealProofTypes !! p with
  | Some sp =>
      RegisteredPoStProof_RegisteredSealProof p = (sp, None) ∧
      ∃ info, SealProofInfos !! sp = Some info ∧
              RegisteredPoStProof_SectorSize p = (SectorSize_ info, None)
  | None =>
      RegisteredPoStProof_RegisteredSealProof p
        = (0, Some ("unsupported PoSt proof type: " +:+ FormatInt p)) ∧
      RegisteredPoStProof_SectorSize p
        = (0, Some ("unsupported PoSt proof type: " +:+ FormatInt p))
  end.
Proof.
  unfold RegisteredPoStProof_SectorSize, RegisteredPoStProof_RegisteredSealProof,
    Errorf.
  destruct (PoStSealProofTypes !! p) as [sp|] eqn:Hp; [ | auto ].
  split; [ reflexivity | ].
  destruct (PoStSealProofTypes_targets_registered p sp Hp) as [info Hinfo].
  exists info. split; [ assumption | ].
  apply (accessors_registered sp info Hinfo).
Qed.

(** C3 (closed-world lookup).  On a seal proof value, [SectorSize],
    [RegisteredWinningPoStProof] and [RegisteredWindowPoStProof] return the
    error "unsupported proof type: <value>" exactly when the value has no
    entry in [SealProofInfos], and a nil error exactly when it has one; on
    a PoSt proof value, [RegisteredSealProof] and [SectorSize] return the
    error "unsupported PoSt proof type: <value>" exactly when the value has
    no entry in [PoStSealProofTypes], and a nil error exactly when it has
    one.  [RegisteredSealProof(5)], one past the highest assigned
    identifier, has no entry and gets the error from all three accessors. *)
Theorem lookups_fail_iff_unregistered :
  (∀ s : Z,
     (SealProofInfos !! s = None ↔
        RegisteredSealProof_SectorSize s
          = (0, Some ("unsupported proof type: " +:+ FormatInt s))) ∧
     (SealProofInfos !! s = None ↔
        RegisteredWinningPoStProof s
          = (0, Some ("unsupported proof type: " +:+ FormatInt s))) ∧
     (SealProofInfos !! s = None ↔
        RegisteredWindowPoStProof s
          = (0, Some ("unsupported proof type: " +:+ FormatInt s))) ∧
     (is_Some (SealProofInfos !! s) ↔
        (RegisteredSealProof_SectorSize s).2 = None) ∧
     (is_Some (SealProofInfos !! s) ↔
        (RegisteredWinningPoStProof s).2 = None) ∧
     (is_Some (SealProofInfos !! s) ↔
        (RegisteredWindowPoStProof s).2 = None)) ∧
  (∀ p : Z,
     (PoStSealProofTypes !! p = None ↔
        RegisteredPoStProof_RegisteredSealProof p
          = (0, Some ("unsupported PoSt proof type: " +:+ FormatInt p))) ∧
     (PoStSealProofTypes !! p = None ↔
        RegisteredPoStProof_SectorSize p
          = (0, Some ("unsupported PoSt proof type: " +:+ FormatInt p))) ∧
     (is_Some (PoStSealProofTypes !! p) ↔
        (RegisteredPoStProof_RegisteredSealProof p).2 = None) ∧
     (is_Some (PoStSealProofTypes !! p) ↔
        (RegisteredPoStProof_SectorSize p).2 = None)) ∧
  SealProofInfos !! (RegisteredSealProof_StackedDrg64GiBV2 + 1) = None ∧
  RegisteredSealProof_SectorSize 5 = (0, Some "unsupported proof type: 5") ∧
  RegisteredWinningPoStProof 5 = (0, Some "unsupported proof type: 5") ∧
  RegisteredWindowPoStProof 5 = (0, Some "unsupported proof type: 5").
Proof.
  split; [ | split ].
  - intros s. pose proof (seal_accessors_outcome s) as H.
    destruct (SealProofInfos !! s) as [info|];
      destruct H as (-> & -> & ->); simpl;
      repeat split; intros; eauto; try discriminate;
      match goal with H : is_Some None |- _ => destruct H; discriminate end.
  - intros p. pose proof (post_accessors_outcome p) as H.
    destruct (PoStSealProofTypes !! p) as [sp|].
    + destruct H as (-> & info & _ & ->). simpl.
      repeat split; intros; eauto; discriminate.
    + destruct H as (-> & ->). simpl.
      repeat split; intros; eauto; try discriminate;
      match goal with H : is_Some None |- _ => destruct H; discriminate end.
  - vm_compute. auto.
Qed.

(** C4 (the reverse table is the inversion of the forward table).
    [PoStSealProofTypes] maps a PoSt proof [p] to a seal proof [s] if and
    only if [SealProofInfos] has an entry for [s] whose winning or window
    PoSt proof is [p]; and the literal table is equal, as a map, to the
    table obtained by inverting [SealProofInfos]. *)
Theorem PoStSealProofTypes_is_inversion :
  (∀ p s : Z,
     PoStSealProofTypes !! p = Some s ↔
     ∃ info, SealProofInfos !! s = Some info ∧
             (WinningPoStProof info = p ∨ WindowPoStProof info = p)) ∧
  PoStSealProofTypes = inverted_SealProofInfos SealProofInfos.
Proof.
  split.
  - intros p s. split.
    + intros H. entries_of H;
        (eexists; split; [ reflexivity | vm_compute; auto ]).
    + intros (info & H & Hp).
      destruct (PoStSealProofTypes_inverts s info H) as [Hw Hd].
      destruct Hp as [<- | <-]; assumption.
  - vm_compute. reflexivity.
Qed.

(** C5 (no PoSt collision).  Two distinct seal proofs that both have
    entries in [SealProofInfos] carry disjoint pairs of PoSt proofs: no
    PoSt identifier appears under two seal proof types. *)
Theorem PoStProofs_disjoint (s1 s2 : Z) (info1 info2 : SealProofInfo) :
  SealProofInfos !! s1 = Some info1 →
  SealProofInfos !! s2 = Some info2 →
  s1 ≠ s2 →
  PoStProofs_of info1 ## PoStProofs_of info2.
Proof.
  intros H1 H2 Hne.
  destruct (SealProofInfos_lookup_cases s1 info1 H1) as (Hr1 & Hw1 & Hd1).
  destruct (SealProofInfos_lookup_cases s2 info2 H2) as (Hr2 & Hw2 & Hd2).
  unfold PoStProofs_of. rewrite Hw1, Hd1, Hw2, Hd2.
  apply elem_of_disjoint. intros x Hx1 Hx2.
  apply elem_of_union in Hx1 as [Hx1 | Hx1];
    apply elem_of_union in Hx2 as [Hx2 | Hx2];
    apply elem_of_singleton in Hx1; apply elem_of_singleton in Hx2; lia.
Qed.

(** The 2 KiB and the 8 MiB entries share no PoSt proof. *)
Lemma PoStProofs_disjoint_2KiB_8MiB :
  SealProofInfos !! RegisteredSealProof_StackedDrg2KiBV2
    = Some {| SectorSize_ := 2048; WinningPoStProof := 0; WindowPoStProof := 5 |} ∧
  SealProofInfos !! RegisteredSealProof_StackedDrg8MiBV2
    = Some {| SectorSize_ := 8388608; WinningPoStProof := 1; WindowPoStProof := 6 |} ∧
  RegisteredSealProof_StackedDrg2KiBV2 ≠ RegisteredSealProof_StackedDrg8MiBV2 ∧
  PoStProofs_of
    {| SectorSize_ := 2048; WinningPoStProof := 0; WindowPoStProof := 5 |} ##
  PoStProofs_of
    {| SectorSize_ := 8388608; WinningPoStProof := 1; WindowPoStProof := 6 |}.
Proof.
  assert (RegisteredSealProof_StackedDrg2KiBV2
            ≠ RegisteredSealProof_StackedDrg8MiBV2) as Hne
    by (vm_compute; discriminate).
  split; [ reflexivity | ]. split; [ reflexivity | ].
  split; [ exact Hne | ].
  apply (PoStProofs_disjoint RegisteredSealProof_StackedDrg2KiBV2
           RegisteredSealProof_StackedDrg8MiBV2);
    [ reflexivity | reflexivity | exact Hne ].
Defined.

(** C6 (two-hop derivation).  For every PoSt proof [p],
    [p.SectorSize()] returns zero and the error of
    [p.RegisteredSealProof()] when that lookup fails, and otherwise returns
    what [SectorSize()] returns on the seal proof that lookup produced;
    spelled out on the tables, it reads [PoStSealProofTypes] and then
    [SealProofInfos], and the second read never fails. *)
Theorem post_sector_size_two_hops (p : Z) :
  match RegisteredPoStProof_RegisteredSealProof p with
  | (_, Some e) => RegisteredPoStProof_SectorSize p = (0, Some e)
  | (sp, None) =>
      RegisteredPoStProof_SectorSize p = RegisteredSealProof_SectorSize sp
  end ∧
  RegisteredPoStProof_SectorSize p =
    match PoStSealProofTypes !! p with
    | None => (0, Some ("unsupported PoSt proof type: " +:+ FormatInt p))
    | Some sp =>
        match SealProofInfos !! sp with
        | None => (0, Some ("unsupported proof type: " +:+ FormatInt sp))
        | Some info => (SectorSize_ info, None)
        end
    end ∧
  ∀ sp, PoStSealProofTypes !! p = Some sp → is_Some (SealProofInfos !! sp).
Proof.
  split; [ | split ].
  - unfold RegisteredPoStProof_SectorSize.
    destruct (RegisteredPoStProof_RegisteredSealProof p) as [sp [e|]];
      reflexivity.
  - unfold RegisteredPoStProof_SectorSize,
      RegisteredPoStProof_RegisteredSealProof, RegisteredSealProof_SectorSize,
      Errorf.
    destruct (PoStSealProofTypes !! p); reflexivity.
  - apply PoStSealProofTypes_targets_registered.
Qed.

(** C8 (twice as many PoSt variants).  Every entry of [SealProofInfos]
    carries two distinct PoSt proofs, a winning and a window one;
    [PoStSealProofTypes] has ten keys and [SealProofInfos] five, so twice
    as many; and the keys of the two tables are exactly the declared
    constants of the two identifier types, ten and five of them. *)
Theorem PoSt_variants_twice_seal_variants :
  map_Forall
    (λ _ info, WinningPoStProof info ≠ WindowPoStProof info ∧
               size (PoStProofs_of info) = 2%nat)
    SealProofInfos ∧
  size PoStSealProofTypes = 10%nat ∧
  size SealProofInfos = 5%nat ∧
  size PoStSealProofTypes = (2 * size SealProofInfos)%nat ∧
  dom SealProofInfos = list_to_set RegisteredSealProof_consts ∧
  dom PoStSealProofTypes = list_to_set RegisteredPoStProof_consts ∧
  NoDup RegisteredSealProof_consts ∧
  NoDup RegisteredPoStProof_consts ∧
  length RegisteredPoStProof_consts
    = (2 * length RegisteredSealProof_consts)%nat.
Proof.
  split.
  { intros s info H. entries_of H; split; try discriminate;
      vm_compute; reflexivity. }
  repeat split; try (vm_compute; reflexivity);
    apply (bool_decide_unpack _); vm_compute; exact I.
Qed.

(** C9 (the 2 KiB scenario).  For the 2 KiB seal proof, value 0:
    [SectorSize()] returns 2048; [RegisteredWinningPoStProof()] returns the
    2 KiB winning PoSt proof, value 0; [RegisteredSealProof()] on that
    winning proof returns the 2 KiB seal proof; and [SectorSize()] on the
    2 KiB window PoSt proof, value 5, returns 2048.  All four return a nil
    error. *)
Theorem scenario_2KiB :
  RegisteredSealProof_StackedDrg2KiBV2 = 0 ∧
  RegisteredPoStProof_StackedDrgWinning2KiBV2 = 0 ∧
  RegisteredPoStProof_StackedDrgWindow2KiBV2 = 5 ∧
  RegisteredSealProof_SectorSize RegisteredSealProof_StackedDrg2KiBV2
    = (2048, None) ∧
  RegisteredWinningPoStProof RegisteredSealProof_StackedDrg2KiBV2
    = (RegisteredPoStProof_StackedDrgWinning2KiBV2, None) ∧
  RegisteredPoStProof_RegisteredSealProof
    RegisteredPoStProof_StackedDrgWinning2KiBV2
    = (RegisteredSealProof_StackedDrg2KiBV2, None) ∧
  RegisteredPoStProof_SectorSize RegisteredPoStProof_StackedDrgWindow2KiBV2
    = (2048, None).
Proof. repeat split. Qed.

(** ** The loop of [ShortString] *)

Lemma ShortString_loop_step (s unit : Z) :
  ShortString_loop s unit =
    if decide (1024 ≤ s ∧ unit < len_biUnits - 1)
    then ShortString_loop (s / 1024) (unit + 1)
    else (s, unit).
Proof.
  rewrite ShortString_loop_equation_1.
  destruct (decide (1024 ≤ s ∧ unit < len_biUnits - 1)); reflexivity.
Qed.

(** The loop started at [unit] runs [k] iterations, each dividing by 1024,
    and stops at the first [k] where the value is below 1024 or the last
    unit is reached. *)
Lemma ShortString_loop_iterations (s unit : Z) :
  unit ≤ len_biUnits - 1 →
  ∃ k : nat,
    ShortString_loop s unit = (Nat.iter k div1024 s, unit + Z.of_nat k) ∧
    unit + Z.of_nat k ≤ len_biUnits - 1 ∧
    (∀ j : nat, (j < k)%nat → 1024 ≤ Nat.iter j div1024 s) ∧
    (Nat.iter k div1024 s < 1024 ∨ unit + Z.of_nat k = len_biUnits - 1).
Proof.
  remember (Z.to_nat (len_biUnits - 1 - unit)) as n eqn:Hn.
  revert s unit Hn.
  induction n as [|n IH]; intros s unit Hn Hunit;
    rewrite ShortString_loop_step;
    destruct (decide (1024 ≤ s ∧ unit < len_biUnits - 1)) as [[Hs Hlt] | Hstop];
    try lia.
  - exists 0%nat. simpl. rewrite Z.add_0_r. repeat split; lia.
  - change (s / 1024) with (div1024 s).
    destruct (IH (div1024 s) (unit + 1)) as (k & Hk & Hle & Hbig & Hend);
      [ lia | lia | ].
    exists (S k). rewrite Nat.iter_succ_r, Hk, Nat2Z.inj_succ. repeat split.
    + f_equal. lia.
    + lia.
    + intros [|j] Hj; [ exact Hs | ].
      rewrite Nat.iter_succ_r. apply Hbig. lia.
    + destruct Hend as [Hend | Hend]; [ left; exact Hend | right; lia ].
  - exists 0%nat. simpl. rewrite Z.add_0_r. repeat split; lia.
Qed.

Lemma iter_div1024 (k : nat) (s : Z) :
  Nat.iter k div1024 s = s / 1024 ^ Z.of_nat k.
Proof.
  induction k as [|k IH].
  - simpl. by rewrite Z.div_1_r.
  - rewrite Nat.iter_succ, IH. unfold div1024.
    rewrite Z.div_div by lia.
    rewrite Nat2Z.inj_succ, Z.pow_succ_r by lia.
    f_equal. lia.
Qed.

(** A value of at least [2^60] is still at least 1024 after fewer than six
    divisions by 1024. *)
Lemma quotient_of_EiB_value (s : Z) (k : nat) :
  2 ^ 60 ≤ s → (k < 6)%nat → 1024 ≤ s / 1024 ^ Z.of_nat k.
Proof.
  intros Hs Hk. apply Z.div_le_lower_bound; [ lia | ].
  replace (1024 ^ Z.of_nat k * 1024) with (1024 ^ Z.succ (Z.of_nat k))
    by (rewrite Z.pow_succ_r; lia).
  transitivity (1024 ^ 6); [ | lia ].
  apply Z.pow_le_mono_r; lia.
Qed.


(** What [ShortString] returns, in terms of the number [k] of iterations
    its loop runs. *)
Lemma ShortString_outcome (s : Z) :
  ∃ (k : nat) (u : string),
    (k ≤ 6)%nat ∧
    biUnits !! k = Some u ∧
    ShortString_loop s 0 = (Nat.iter k div1024 s, Z.of_nat k) ∧
    (∀ j : nat, (j < k)%nat → 1024 ≤ Nat.iter j div1024 s) ∧
    (Nat.iter k div1024 s < 1024 ∨ k = 6%nat) ∧
    ShortString s = Some (FormatUint (Nat.iter k div1024 s) +:+ u).
Proof.
  destruct (ShortString_loop_iterations s 0) as (k & Hk & Hle & Hbig & Hend).
  { vm_compute. discriminate. }
  change (len_biUnits - 1) with 6 in *. rewrite Z.add_0_l in *.
  assert (k < length biUnits)%nat as Hlen by (simpl; lia).
  destruct (lookup_lt_is_Some_2 biUnits k Hlen) as [u Hu].
  exists k, u. repeat split; try assumption; try lia.
  unfold ShortString. rewrite Hk. unfold index.
  destruct (decide (0 ≤ Z.of_nat k)) as [_ | Hneg]; [ | lia ].
  rewrite Nat2Z.id, Hu. reflexivity.
Qed.

(** C7 (abbreviation by repeated truncating division).  On a [uint64]
    value [s], [ShortString] divides by 1024 some [k] times, where every
    earlier quotient was at least 1024 and the [k]-th is below 1024 unless
    [k] is the index of the last unit, EiB; the [k]-th quotient is [s]
    divided by [1024^k] rounded toward zero; and the result is that
    quotient in decimal followed by the [k]-th unit.  In particular 1024
    gives "1KiB" and not "1024B", 0 gives "0B", and 1536 gives "1KiB". *)
Theorem ShortString_repeated_division (s : Z) :
  is_uint64 s →
  (∃ (k : nat) (u : string),
     biUnits !! k = Some u ∧
     (∀ j : nat, (j < k)%nat → 1024 ≤ Nat.iter j div1024 s) ∧
     (Nat.iter k div1024 s < 1024 ∨ k = 6%nat ∧ u = "EiB") ∧
     Nat.iter k div1024 s = s ÷ 1024 ^ Z.of_nat k ∧
     ShortString s = Some (FormatUint (Nat.iter k div1024 s) +:+ u)) ∧
  ShortString 1024 = Some "1KiB" ∧
  ShortString 1024 ≠ Some "1024B" ∧
  ShortString 0 = Some "0B" ∧
  ShortString 1536 = Some "1KiB".
Proof.
  intros [Hs0 Hs64]. split; [ | by vm_compute ].
  destruct (ShortString_outcome s) as (k & u & Hk6 & Hu & _ & Hbig & Hend & Hres).
  exists k, u. repeat split; try assumption.
  - destruct Hend as [Hend | ->]; [ left; exact Hend | right ].
    split; [ reflexivity | ]. vm_compute in Hu. congruence.
  - rewrite iter_div1024. symmetry. apply Z.quot_div_nonneg; lia.
Qed.

(** Five MiB and five bytes: two divisions, then the unit MiB. *)
Lemma ShortString_repeated_division_5MiB :
  is_uint64 5242885 ∧
  (∃ (k : nat) (u : string),
     biUnits !! k = Some u ∧
     (∀ j : nat, (j < k)%nat → 1024 ≤ Nat.iter j div1024 5242885) ∧
     (Nat.iter k div1024 5242885 < 1024 ∨ k = 6%nat ∧ u = "EiB") ∧
     Nat.iter k div1024 5242885 = 5242885 ÷ 1024 ^ Z.of_nat k ∧
     ShortString 5242885
       = Some (FormatUint (Nat.iter k div1024 5242885) +:+ u)) ∧
  ShortString 1024 = Some "1KiB" ∧
  ShortString 1024 ≠ Some "1024B" ∧
  ShortString 0 = Some "0B" ∧
  ShortString 1536 = Some "1KiB".
Proof.
  assert (is_uint64 5242885) as H by (unfold is_uint64; lia).
  split; [ exact H | exact (ShortString_repeated_division 5242885 H) ].
Defined.

(** C10 (totality and safety).  On every [uint64] value, the maximum
    included, the loop of [ShortString] stops with [unit] between 0 and
    the index of the last unit, so [biUnits[unit]] is in range and
    [ShortString] returns a string; from [2^60] on, the unit is "EiB" and
    the number printed is the value divided by [2^60]. *)
Theorem ShortString_total (s : Z) :
  is_uint64 s →
  ∃ (q unit : Z) (u : string),
    ShortString_loop s 0 = (q, unit) ∧
    0 ≤ unit ≤ len_biUnits - 1 ∧
    index biUnits unit = Some u ∧
    ShortString s = Some (FormatUint q +:+ u) ∧
    (2 ^ 60 ≤ s → unit = len_biUnits - 1 ∧ u = "EiB" ∧ q = s / 2 ^ 60).
Proof.
  intros [Hs0 Hs64].
  destruct (ShortString_outcome s) as (k & u & Hk6 & Hu & Hloop & Hbig & Hend & Hres).
  exists (Nat.iter k div1024 s), (Z.of_nat k), u.
  change (len_biUnits - 1) with 6.
  split; [ exact Hloop | ]. split; [ lia | ].
  split.
  { unfold index. destruct (decide (0 ≤ Z.of_nat k)); [ | lia ].
    by rewrite Nat2Z.id. }
  split; [ exact Hres | ].
  intros Hbigs.
  assert (k = 6%nat) as ->.
  { destruct (decide (k = 6%nat)) as [Hk | Hk]; [ exact Hk | ].
    destruct Hend as [Hend | Hend]; [ exfalso | exact Hend ].
    pose proof (quotient_of_EiB_value s k Hbigs) as Hq.
    rewrite iter_div1024 in Hend. lia. }
  vm_compute in Hu. repeat split; [ congruence | ].
  by rewrite iter_div1024.
Qed.

(** The largest [uint64] is rendered, in EiB. *)
Lemma ShortString_total_max_uint64 :
  is_uint64 (2 ^ 64 - 1) ∧
  ∃ (q unit : Z) (u : string),
    ShortString_loop (2 ^ 64 - 1) 0 = (q, unit) ∧
    0 ≤ unit ≤ len_biUnits - 1 ∧
    index biUnits unit = Some u ∧
    ShortString (2 ^ 64 - 1) = Some (FormatUint q +:+ u) ∧
    (2 ^ 60 ≤ 2 ^ 64 - 1 →
     unit = len_biUnits - 1 ∧ u = "EiB" ∧ q = (2 ^ 64 - 1) / 2 ^ 60).
Proof.
  assert (is_uint64 (2 ^ 64 - 1)) as H by (unfold is_uint64; lia).
  split; [ exact H | exact (ShortString_total (2 ^ 64 - 1) H) ].
Defined.

(** ** Further properties of [ShortString] and [String] *)




(** X2.  On a [uint64] value [s], [ShortString] prints a number [q] and
    the [k]-th unit such that [q * 1024^k <= s < (q + 1) * 1024^k]: the
    abbreviation never exceeds the value and falls short of it by less
    than one unit.  The number is below 1024, and at least 1 unless the
    unit is "B". *)
Theorem ShortString_truncation_bound (s : Z) :
  is_uint64 s →
  ∃ (q : Z) (k : nat) (u : string),
    ShortString s = Some (FormatUint q +:+ u) ∧
    biUnits !! k = Some u ∧
    q * 1024 ^ Z.of_nat k ≤ s < (q + 1) * 1024 ^ Z.of_nat k ∧
    0 ≤ q < 1024 ∧
    ((0 < k)%nat → 1 ≤ q).
Proof.
  intros [Hs0 Hs64].
  destruct (ShortString_outcome s) as (k & u & Hk6 & Hu & _ & Hbig & Hend & Hres).
  assert (0 < 1024 ^ Z.of_nat k) as Hpow by (apply Z.pow_pos_nonneg; lia).
  exists (Nat.iter k div1024 s), k, u.
  split; [ exact Hres | ]. split; [ exact Hu | ].
  rewrite iter_div1024 in *.
  pose proof (Z.mul_div_le s _ Hpow) as Hlo.
  pose proof (Z.mul_succ_div_gt s _ Hpow) as Hhi.
  split; [ lia | ]. split.
  - split; [ apply Z.div_pos; lia | ].
    destruct Hend as [Hend | ->]; [ exact Hend | ].
    apply Z.div_lt_upper_bound; lia.
  - intros Hk. destruct k as [|k]; [ lia | ].
    specialize (Hbig k (Nat.lt_succ_diag_r k)). rewrite iter_div1024 in Hbig.
    apply Z.div_le_lower_bound; [ lia | ].
    rewrite Nat2Z.inj_succ, Z.pow_succ_r by lia.
    assert (0 < 1024 ^ Z.of_nat k) as Hpk by (apply Z.pow_pos_nonneg; lia).
    pose proof (Z.mul_div_le s _ Hpk). nia.
Qed.

(** Five MiB and five bytes lie between 5 MiB and 6 MiB. *)
Lemma ShortString_truncation_bound_5MiB :
  is_uint64 5242885 ∧
  ∃ (q : Z) (k : nat) (u : string),
    ShortString 5242885 = Some (FormatUint q +:+ u) ∧
    biUnits !! k = Some u ∧
    q * 1024 ^ Z.of_nat k ≤ 5242885 < (q + 1) * 1024 ^ Z.of_nat k ∧
    0 ≤ q < 1024 ∧
    ((0 < k)%nat → 1 ≤ q).
Proof.
  assert (is_uint64 5242885) as H by (unfold is_uint64; lia).
  split; [ exact H | exact (ShortString_truncation_bound 5242885 H) ].
Defined.

Lemma String_length_append (a b : string) :
  String.length (a +:+ b) = (String.length a + String.length b)%nat.
Proof. induction a as [|c a IH]; simpl; [ reflexivity | by rewrite IH ]. Qed.

(** A number below 1024 prints with one to four digits. *)
Lemma FormatUint_length_below_1024 (q : Z) :
  0 ≤ q < 1024 → (1 ≤ String.length (FormatUint q) ≤ 4)%nat.
Proof.
  intros Hq.
  assert (Forall (λ q, (1 ≤ String.length (FormatUint q) ≤ 4)%nat)
            (seqZ 0 1024)) as Hall.
  { apply (bool_decide_unpack _). vm_compute. exact I. }
  rewrite Forall_forall in Hall. apply Hall, elem_of_seqZ. lia.
Qed.

(** On a [uint64] value the number [ShortString] prints is below 1024:
    the loop stops below 1024, or at EiB with at most [2^64 / 2^60]. *)
Lemma ShortString_number_below_1024 (s : Z) :
  is_uint64 s →
  ∃ (q : Z) (u : string),
    ShortString s = Some (FormatUint q +:+ u) ∧ u ∈ biUnits ∧ 0 ≤ q < 1024.
Proof.
  intros [Hs0 Hs64].
  destruct (ShortString_outcome s) as (k & u & _ & Hu & _ & _ & Hend & Hres).
  exists (Nat.iter k div1024 s), u.
  split; [ exact Hres | ]. split; [ by apply list_elem_of_lookup_2 in Hu | ].
  rewrite iter_div1024 in *.
  assert (0 < 1024 ^ Z.of_nat k) as Hpow by (apply Z.pow_pos_nonneg; lia).
  split; [ apply Z.div_pos; lia | ].
  destruct Hend as [Hend | ->]; [ exact Hend | ].
  apply Z.div_lt_upper_bound; lia.
Qed.

(** X3.  On a [uint64] value the string [ShortString] returns has between
    two and seven characters: at most four digits and a unit of at most
    three letters. *)
Theorem ShortString_length (s : Z) (str : string) :
  is_uint64 s →
  ShortString s = Some str →
  (2 ≤ String.length str ≤ 7)%nat.
Proof.
  intros Hs Hstr.
  destruct (ShortString_number_below_1024 s Hs) as (q & u & Hres & Hu & Hq).
  rewrite Hres in Hstr. injection Hstr as <-.
  rewrite String_length_append.
  pose proof (FormatUint_length_below_1024 q Hq) as Hdigits.
  assert (1 ≤ String.length u ≤ 3)%nat as Hunit.
  { unfold biUnits in Hu.
    repeat (apply elem_of_cons in Hu as [-> | Hu]; [ simpl; lia | ]).
    by apply elem_of_nil in Hu. }
  lia.
Qed.

(** The largest [uint64] is rendered in five characters, "15EiB". *)
Lemma ShortString_length_max_uint64 :
  is_uint64 (2 ^ 64 - 1) ∧
  ShortString (2 ^ 64 - 1) = Some "15EiB" ∧
  (2 ≤ String.length "15EiB" ≤ 7)%nat.
Proof.
  assert (is_uint64 (2 ^ 64 - 1)) as H by (unfold is_uint64; lia).
  split; [ exact H | ]. split; [ reflexivity | ].
  exact (ShortString_length (2 ^ 64 - 1) "15EiB" H eq_refl).
Defined.

(** X4.  Below 1024 nothing is divided: [ShortString] returns the decimal
    string that [String] returns, followed by "B". *)
Theorem ShortString_below_1024 (s : Z) :
  s < 1024 →
  ShortString s = Some (SectorSize_String s +:+ "B").
Proof.
  intros Hs. unfold ShortString. rewrite ShortString_loop_step.
  destruct (decide (1024 ≤ s ∧ 0 < len_biUnits - 1)) as [[Hge _] | _];
    [ lia | reflexivity ].
Qed.

Lemma ShortString_below_1024_at_1023 :
  1023 < 1024 ∧ ShortString 1023 = Some (SectorSize_String 1023 +:+ "B").
Proof.
  assert (1023 < 1024) as H by lia.
  split; [ exact H | exact (ShortString_below_1024 1023 H) ].
Defined.

Lemma FormatUint_inj (a b : Z) :
  0 ≤ a → 0 ≤ b → FormatUint a = FormatUint b → a = b.
Proof.
  intros Ha Hb Heq. unfold FormatUint in Heq.
  assert (∀ n : N, N.to_uint n ≠ Decimal.Nil) as Hnonnil.
  { intros [|p]; [ discriminate | apply DecimalPos.Unsigned.to_uint_nonnil ]. }
  pose proof (NilZero.usu _ (Hnonnil (Z.to_N a))) as Hra.
  pose proof (NilZero.usu _ (Hnonnil (Z.to_N b))) as Hrb.
  rewrite Heq, Hrb in Hra. injection Hra as Hra.
  apply DecimalN.Unsigned.to_uint_inj in Hra.
  apply Z2N.inj; [ exact Ha | exact Hb | by symmetry ].
Qed.

(** X5.  [String] loses nothing: two sector sizes, or two sector numbers,
    with the same decimal string are equal. *)
Theorem String_injective (a b : Z) :
  is_uint64 a → is_uint64 b →
  (SectorSize_String a = SectorSize_String b → a = b) ∧
  (SectorNumber_String a = SectorNumber_String b → a = b).
Proof.
  intros [Ha _] [Hb _].
  split; apply FormatUint_inj; assumption.
Qed.

Lemma String_injective_at_MaxSectorNumber :
  is_uint64 MaxSectorNumber ∧ is_uint64 (2 ^ 63 - 1) ∧
  (SectorSize_String MaxSectorNumber = SectorSize_String (2 ^ 63 - 1) →
   MaxSectorNumber = 2 ^ 63 - 1) ∧
  (SectorNumber_String MaxSectorNumber = SectorNumber_String (2 ^ 63 - 1) →
   MaxSectorNumber = 2 ^ 63 - 1).
Proof.
  assert (is_uint64 MaxSectorNumber) as H by (vm_compute; split; congruence).
  split; [ exact H | ]. split; [ exact H | ].
  exact (String_injective MaxSectorNumber (2 ^ 63 - 1) H H).
Defined.

(** ** Further properties of the registry *)

(** A nil error from [SectorSize] comes from an entry of the table. *)
Lemma SectorSize_success (s sz : Z) :
  RegisteredSealProof_SectorSize s = (sz, None) →
  ∃ info, SealProofInfos !! s = Some info ∧ SectorSize_ info = sz.
Proof.
  unfold RegisteredSealProof_SectorSize.
  destruct (SealProofInfos !! s) as [info|]; [ | discriminate ].
  intros [= <-]. eauto.
Qed.

(** A nil error from the reverse lookup comes from an entry of the
    table. *)
Lemma RegisteredSealProof_success (p s : Z) :
  RegisteredPoStProof_RegisteredSealProof p = (s, None) →
  PoStSealProofTypes !! p = Some s.
Proof.
  unfold RegisteredPoStProof_RegisteredSealProof.
  destruct (PoStSealProofTypes !! p) as [sp|]; [ | discriminate ].
  by intros [= <-].
Qed.

(** A nil error from [SectorSize] on a PoSt proof comes from an entry of
    each table. *)
Lemma post_SectorSize_success (p sz : Z) :
  RegisteredPoStProof_SectorSize p = (sz, None) →
  ∃ s, PoStSealProofTypes !! p = Some s ∧
       RegisteredSealProof_SectorSize s = (sz, None).
Proof.
  intros H. pose proof (post_accessors_outcome p) as Hout.
  destruct (PoStSealProofTypes !! p) as [s|].
  - destruct Hout as (_ & info & Hinfo & Hsz). exists s. split; [ done | ].
    rewrite Hsz in H. injection H as <-.
    apply (accessors_registered s info Hinfo).
  - destruct Hout as [_ Hsz]. rewrite Hsz in H. discriminate.
Qed.

(** The sizes of the table: entry [s] holds two to the power written
    here. *)
Lemma SealProofInfos_sizes (s : Z) (info : SealProofInfo) :
  SealProofInfos !! s = Some info →
  ∃ n : Z, SectorSize_ info = 2 ^ n ∧ 11 ≤ n ≤ 36 ∧
           (s = 0 ∧ n = 11 ∨ s = 1 ∧ n = 23 ∨ s = 2 ∧ n = 29 ∨
            s = 3 ∧ n = 35 ∨ s = 4 ∧ n = 36).
Proof.
  intros H.
  entries_of H;
    [> exists 11 | exists 23 | exists 29 | exists 35 | exists 36 ];
    (split; [ reflexivity | split; [ lia | ] ]);
    vm_compute; intuition congruence.
Qed.

(** X6.  A sector size that [SectorSize] returns with a nil error is a
    power of two from 2 KiB to 64 GiB, so it is positive and fits a
    [uint64]. *)
Theorem registered_SectorSize_power_of_two (s sz : Z) :
  RegisteredSealProof_SectorSize s = (sz, None) →
  (∃ n : Z, 11 ≤ n ≤ 36 ∧ sz = 2 ^ n) ∧
  2048 ≤ sz ≤ 64 * 2 ^ 30 ∧
  is_uint64 sz.
Proof.
  intros H. destruct (SectorSize_success s sz H) as (info & Hinfo & <-).
  destruct (SealProofInfos_sizes s info Hinfo) as (n & -> & Hn & _).
  assert (2 ^ 11 ≤ 2 ^ n) by (apply Z.pow_le_mono_r; lia).
  assert (2 ^ n ≤ 2 ^ 36) by (apply Z.pow_le_mono_r; lia).
  split; [ eauto | ]. unfold is_uint64. lia.
Qed.

Lemma registered_SectorSize_power_of_two_512MiB :
  RegisteredSealProof_SectorSize RegisteredSealProof_StackedDrg512MiBV2
    = (536870912, None) ∧
  (∃ n : Z, 11 ≤ n ≤ 36 ∧ 536870912 = 2 ^ n) ∧
  2048 ≤ 536870912 ≤ 64 * 2 ^ 30 ∧
  is_uint64 536870912.
Proof.
  split; [ reflexivity | ].
  exact (registered_SectorSize_power_of_two
           RegisteredSealProof_StackedDrg512MiBV2 536870912 eq_refl).
Defined.

(** X7.  For both [SectorSize] functions the size returned is zero
    exactly when the error is not nil: a caller that sees a zero size
    has a failed lookup, and a failed lookup never carries a size. *)
Theorem SectorSize_zero_iff_failure :
  (∀ s : Z, (RegisteredSealProof_SectorSize s).1 = 0 ↔
            is_Some (RegisteredSealProof_SectorSize s).2) ∧
  (∀ p : Z, (RegisteredPoStProof_SectorSize p).1 = 0 ↔
            is_Some (RegisteredPoStProof_SectorSize p).2).
Proof.
  assert (∀ s info, SealProofInfos !! s = Some info → SectorSize_ info ≠ 0)
    as Hpos.
  { intros s info H. destruct (SealProofInfos_sizes s info H) as (n & -> & Hn & _).
    assert (0 < 2 ^ n) by (apply Z.pow_pos_nonneg; lia). lia. }
  split.
  - intros s. pose proof (seal_accessors_outcome s) as Hout.
    destruct (SealProofInfos !! s) as [info|] eqn:Hs;
      destruct Hout as (-> & _); simpl.
    + split; [ intros H0; by destruct (Hpos s info Hs) | intros [e He]; discriminate ].
    + split; eauto.
  - intros p. pose proof (post_accessors_outcome p) as Hout.
    destruct (PoStSealProofTypes !! p) as [s|].
    + destruct Hout as (_ & info & Hinfo & ->). simpl.
      split; [ intros H0; by destruct (Hpos s info Hinfo) | intros [e He]; discriminate ].
    + destruct Hout as (_ & ->). simpl. split; eauto.
Qed.

(** X8.  Among registered seal proofs the sector size grows with the
    identifier, so the size determines the seal proof. *)
Theorem SectorSize_strictly_increasing (s1 s2 sz1 sz2 : Z) :
  RegisteredSealProof_SectorSize s1 = (sz1, None) →
  RegisteredSealProof_SectorSize s2 = (sz2, None) →
  (s1 < s2 ↔ sz1 < sz2) ∧ (s1 = s2 ↔ sz1 = sz2).
Proof.
  intros H1 H2.
  destruct (SectorSize_success s1 sz1 H1) as (i1 & Hi1 & <-).
  destruct (SectorSize_success s2 sz2 H2) as (i2 & Hi2 & <-).
  destruct (SealProofInfos_sizes s1 i1 Hi1) as (n1 & -> & Hn1 & Hc1).
  destruct (SealProofInfos_sizes s2 i2 Hi2) as (n2 & -> & Hn2 & Hc2).
  assert (n1 < n2 ↔ 2 ^ n1 < 2 ^ n2) as Hlt
    by (apply Z.pow_lt_mono_r_iff; lia).
  assert (n1 = n2 ↔ 2 ^ n1 = 2 ^ n2) as Heq.
  { split; [ by intros -> | apply Z.pow_inj_r; lia ]. }
  lia.
Qed.

Lemma SectorSize_strictly_increasing_8MiB_32GiB :
  RegisteredSealProof_SectorSize RegisteredSealProof_StackedDrg8MiBV2
    = (8388608, None) ∧
  RegisteredSealProof_SectorSize RegisteredSealProof_StackedDrg32GiBV2
    = (34359738368, None) ∧
  (RegisteredSealProof_StackedDrg8MiBV2 < RegisteredSealProof_StackedDrg32GiBV2
     ↔ 8388608 < 34359738368) ∧
  (RegisteredSealProof_StackedDrg8MiBV2 = RegisteredSealProof_StackedDrg32GiBV2
     ↔ 8388608 = 34359738368).
Proof.
  split; [ reflexivity | ]. split; [ reflexivity | ].
  exact (SectorSize_strictly_increasing
           RegisteredSealProof_StackedDrg8MiBV2
           RegisteredSealProof_StackedDrg32GiBV2
           8388608 34359738368 eq_refl eq_refl).
Defined.

(** X9.  From a PoSt proof to its seal proof and back: when
    [p.RegisteredSealProof()] returns [s] with a nil error, [p] is the
    winning PoSt proof of [s] or its window PoSt proof, and not both. *)
Theorem post_of_seal_of_post (p s : Z) :
  RegisteredPoStProof_RegisteredSealProof p = (s, None) →
  (RegisteredWinningPoStProof s = (p, None) ∧
   RegisteredWindowPoStProof s ≠ (p, None)) ∨
  (RegisteredWindowPoStProof s = (p, None) ∧
   RegisteredWinningPoStProof s ≠ (p, None)).
Proof.
  intros H. apply RegisteredSealProof_success in H.
  entries_of H; vm_compute; [> left | right | left | right | left | right
                              | left | right | left | right ];
    (split; [ reflexivity | discriminate ]).
Qed.

Lemma post_of_seal_of_post_window_32GiB :
  RegisteredPoStProof_RegisteredSealProof
    RegisteredPoStProof_StackedDrgWindow32GiBV2
    = (RegisteredSealProof_StackedDrg32GiBV2, None) ∧
  ((RegisteredWinningPoStProof RegisteredSealProof_StackedDrg32GiBV2
      = (RegisteredPoStProof_StackedDrgWindow32GiBV2, None) ∧
    RegisteredWindowPoStProof RegisteredSealProof_StackedDrg32GiBV2
      ≠ (RegisteredPoStProof_StackedDrgWindow32GiBV2, None)) ∨
   (RegisteredWindowPoStProof RegisteredSealProof_StackedDrg32GiBV2
      = (RegisteredPoStProof_StackedDrgWindow32GiBV2, None) ∧
    RegisteredWinningPoStProof RegisteredSealProof_StackedDrg32GiBV2
      ≠ (RegisteredPoStProof_StackedDrgWindow32GiBV2, None))).
Proof.
  split; [ reflexivity | ].
  exact (post_of_seal_of_post RegisteredPoStProof_StackedDrgWindow32GiBV2
           RegisteredSealProof_StackedDrg32GiBV2 eq_refl).
Defined.

(** X10.  Two PoSt proofs whose [SectorSize] succeeds have the same
    sector size exactly when they map back to the same seal proof. *)
Theorem post_same_size_iff_same_seal (p1 p2 sz1 sz2 : Z) :
  RegisteredPoStProof_SectorSize p1 = (sz1, None) →
  RegisteredPoStProof_SectorSize p2 = (sz2, None) →
  (sz1 = sz2 ↔
   RegisteredPoStProof_RegisteredSealProof p1
     = RegisteredPoStProof_RegisteredSealProof p2).
Proof.
  intros H1 H2.
  destruct (post_SectorSize_success p1 sz1 H1) as (s1 & Hp1 & Hs1).
  destruct (post_SectorSize_success p2 sz2 H2) as (s2 & Hp2 & Hs2).
  rewrite (RegisteredSealProof_registered p1 s1 Hp1),
    (RegisteredSealProof_registered p2 s2 Hp2).
  destruct (SectorSize_success s1 sz1 Hs1) as (i1 & Hi1 & <-).
  destruct (SectorSize_success s2 sz2 Hs2) as (i2 & Hi2 & <-).
  destruct (SealProofInfos_sizes s1 i1 Hi1) as (n1 & -> & Hn1 & Hc1).
  destruct (SealProofInfos_sizes s2 i2 Hi2) as (n2 & -> & Hn2 & Hc2).
  assert (n1 = n2 ↔ 2 ^ n1 = 2 ^ n2) as Heq.
  { split; [ by intros -> | apply Z.pow_inj_r; lia ]. }
  split.
  - intros Hsz. f_equal. lia.
  - intros [= Hs]. lia.
Qed.

Lemma post_same_size_iff_same_seal_64GiB :
  RegisteredPoStProof_SectorSize RegisteredPoStProof_StackedDrgWinning64GiBV2
    = (68719476736, None) ∧
  RegisteredPoStProof_SectorSize RegisteredPoStProof_StackedDrgWindow64GiBV2
    = (68719476736, None) ∧
  (68719476736 = 68719476736 ↔
   RegisteredPoStProof_RegisteredSealProof
     RegisteredPoStProof_StackedDrgWinning64GiBV2
     = RegisteredPoStProof_RegisteredSealProof
         RegisteredPoStProof_StackedDrgWindow64GiBV2).
Proof.
  split; [ reflexivity | ]. split; [ reflexivity | ].
  exact (post_same_size_iff_same_seal
           RegisteredPoStProof_StackedDrgWinning64GiBV2
           RegisteredPoStProof_StackedDrgWindow64GiBV2
           68719476736 68719476736 eq_refl eq_refl).
Defined.

(** X11.  Every registered sector size is abbreviated without loss: it is
    [m * 1024^k] for some [0 < m < 1024], and [ShortString] prints [m]
    and the [k]-th unit. *)
Theorem registered_SectorSize_abbreviated_exactly (s sz : Z) :
  RegisteredSealProof_SectorSize s = (sz, None) →
  ∃ (m : Z) (k : nat) (u : string),
    0 < m < 1024 ∧
    biUnits !! k = Some u ∧
    sz = m * 1024 ^ Z.of_nat k ∧
    ShortString sz = Some (FormatUint m +:+ u).
Proof.
  intros H. destruct (SectorSize_success s sz H) as (info & Hinfo & <-).
  entries_of Hinfo;
    [> exists 2, 1%nat, "KiB" | exists 8, 2%nat, "MiB"
     | exists 512, 2%nat, "MiB" | exists 32, 3%nat, "GiB"
     | exists 64, 3%nat, "GiB" ];
    (split; [ lia | ]); repeat split.
Qed.

Lemma registered_SectorSize_abbreviated_exactly_2KiB :
  RegisteredSealProof_SectorSize RegisteredSealProof_StackedDrg2KiBV2
    = (2048, None) ∧
  ∃ (m : Z) (k : nat) (u : string),
    0 < m < 1024 ∧
    biUnits !! k = Some u ∧
    2048 = m * 1024 ^ Z.of_nat k ∧
    ShortString 2048 = Some (FormatUint m +:+ u).
Proof.
  split; [ reflexivity | ].
  exact (registered_SectorSize_abbreviated_exactly
           RegisteredSealProof_StackedDrg2KiBV2 2048 eq_refl).
Defined.

(** X12.  The registered identifiers are the contiguous ranges from
    zero: the seal-proof accessors fail exactly outside 0..4 and the
    PoSt-proof accessors exactly outside 0..9, negative values
    included. *)
Theorem accessors_fail_outside_ranges :
  (∀ s : Z,
     (is_Some (RegisteredSealProof_SectorSize s).2 ↔ ¬ (0 ≤ s ≤ 4)) ∧
     (is_Some (RegisteredWinningPoStProof s).2 ↔ ¬ (0 ≤ s ≤ 4)) ∧
     (is_Some (RegisteredWindowPoStProof s).2 ↔ ¬ (0 ≤ s ≤ 4))) ∧
  (∀ p : Z,
     (is_Some (RegisteredPoStProof_RegisteredSealProof p).2 ↔ ¬ (0 ≤ p ≤ 9)) ∧
     (is_Some (RegisteredPoStProof_SectorSize p).2 ↔ ¬ (0 ≤ p ≤ 9))).
Proof.
  split.
  - intros s. pose proof (seal_accessors_outcome s) as Hout.
    destruct (SealProofInfos !! s) as [info|] eqn:Hs.
    + destruct Hout as (-> & -> & ->). simpl.
      destruct (SealProofInfos_lookup_cases s info Hs) as [Hr _].
      repeat split; try (intros [e He]; discriminate); intros Hn; lia.
    + destruct Hout as (-> & -> & ->). simpl.
      assert (¬ (0 ≤ s ≤ 4)) as Hout.
      { intros Hr.
        assert (s = 0 ∨ s = 1 ∨ s = 2 ∨ s = 3 ∨ s = 4) as Hc by lia.
        destruct Hc as [-> | [-> | [-> | [-> | ->]]]]; discriminate Hs. }
      repeat split; eauto.
  - intros p. pose proof (post_accessors_outcome p) as Hout.
    destruct (PoStSealProofTypes !! p) as [s|] eqn:Hp.
    + destruct Hout as (-> & info & _ & ->). simpl.
      assert (0 ≤ p ≤ 9) as Hr by (entries_of Hp; vm_compute; split; congruence).
      repeat split; try (intros [e He]; discriminate); intros Hn; lia.
    + destruct Hout as (-> & ->). simpl.
      assert (¬ (0 ≤ p ≤ 9)) as Hout.
      { intros Hr.
        assert (p = 0 ∨ p = 1 ∨ p = 2 ∨ p = 3 ∨ p = 4 ∨
                p = 5 ∨ p = 6 ∨ p = 7 ∨ p = 8 ∨ p = 9) as Hc by lia.
        destruct Hc as [-> | [-> | [-> | [-> | [-> | [-> | [-> | [-> | [-> | ->]]]]]]]]];
          discriminate Hp. }
      repeat split; eauto.
Qed.

Lemma String_append_cancel_l (a x y : string) : a +:+ x = a +:+ y → x = y.
Proof. induction a as [|c a IH]; simpl; [ done | intros [= H]; auto ]. Qed.

Lemma FormatInt_inj (a b : Z) : FormatInt a = FormatInt b → a = b.
Proof.
  unfold FormatInt. intros Heq.
  assert (∀ z : Z, Z.to_int z ≠ Decimal.Pos Decimal.Nil ∧
                   Z.to_int z ≠ Decimal.Neg Decimal.Nil) as Hnonnil.
  { intros [|p|p]; simpl; split; try discriminate;
      intros [= H]; by apply DecimalPos.Unsigned.to_uint_nonnil in H. }
  destruct (Hnonnil a) as [Ha1 Ha2]. destruct (Hnonnil b) as [Hb1 Hb2].
  pose proof (NilZero.isi _ Ha1 Ha2) as Hra.
  pose proof (NilZero.isi _ Hb1 Hb2) as Hrb.
  rewrite Heq, Hrb in Hra. injection Hra as Hra.
  symmetry. by apply DecimalZ.to_int_inj.
Qed.

(** X13.  The error tells what failed: two failed seal-proof lookups with
    the same error were given the same value, likewise two failed
    PoSt-proof lookups, and no error of a seal-proof lookup is an error of
    a PoSt-proof lookup. *)
Theorem error_identifies_input :
  (∀ s1 s2 : Z,
     is_Some (RegisteredSealProof_SectorSize s1).2 →
     (RegisteredSealProof_SectorSize s1).2 = (RegisteredSealProof_SectorSize s2).2 →
     s1 = s2) ∧
  (∀ p1 p2 : Z,
     is_Some (RegisteredPoStProof_SectorSize p1).2 →
     (RegisteredPoStProof_SectorSize p1).2 = (RegisteredPoStProof_SectorSize p2).2 →
     p1 = p2) ∧
  (∀ s p : Z,
     is_Some (RegisteredSealProof_SectorSize s).2 →
     (RegisteredSealProof_SectorSize s).2 ≠ (RegisteredPoStProof_SectorSize p).2).
Proof.
  split; [ | split ].
  - intros s1 s2.
    pose proof (seal_accessors_outcome s1) as H1.
    pose proof (seal_accessors_outcome s2) as H2.
    destruct (SealProofInfos !! s1); destruct H1 as (-> & _); simpl;
      intros [e He]; [ discriminate | ].
    destruct (SealProofInfos !! s2); destruct H2 as (-> & _); simpl;
      intros [= Heq].
    by apply String_append_cancel_l, FormatInt_inj in Heq.
  - intros p1 p2.
    pose proof (post_accessors_outcome p1) as H1.
    pose proof (post_accessors_outcome p2) as H2.
    destruct (PoStSealProofTypes !! p1).
    { destruct H1 as (_ & info & _ & ->). simpl. intros [e He]. discriminate. }
    destruct H1 as (_ & ->). simpl. intros _.
    destruct (PoStSealProofTypes !! p2).
    { destruct H2 as (_ & info & _ & ->). simpl. discriminate. }
    destruct H2 as (_ & ->). simpl. intros [= Heq].
    by apply String_append_cancel_l, FormatInt_inj in Heq.
  - intros s p.
    pose proof (seal_accessors_outcome s) as H1.
    pose proof (post_accessors_outcome p) as H2.
    destruct (SealProofInfos !! s); destruct H1 as (-> & _); simpl;
      intros [e He]; [ discriminate | ].
    destruct (PoStSealProofTypes !! p).
    { destruct H2 as (_ & info & _ & ->). simpl. discriminate. }
    destruct H2 as (_ & ->). simpl. intros Heq. discriminate Heq.
Qed.

(** Two failed lookups of the value 7 carry one error. *)
Lemma error_identifies_input_at_7 :
  is_Some (RegisteredSealProof_SectorSize 7).2 ∧
  (RegisteredSealProof_SectorSize 7).2 = (RegisteredSealProof_SectorSize 7).2 ∧
  7 = 7.
Proof.
  assert (is_Some (RegisteredSealProof_SectorSize 7).2) as H
    by (vm_compute; eauto).
  split; [ exact H | ]. split; [ reflexivity | ].
  exact (proj1 error_identifies_input 7 7 H eq_refl).
Defined.

(** ** The versions of package network *)

